(** * Parameters.vue: preset / parameter synchronisation of the metaSVG print panel

    Shallow embedding of the script part of
    [src/laser_frontend/src/components/Parameters.vue].  The component state
    ([data()] plus the [presets] prop, the DOM options of the preset
    [<select>] and the events emitted with [this.$emit]) is a record; every
    method is a function from state to state. *)

From Stdlib Require Import String List QArith Bool.
Import ListNotations.
Open Scope string_scope.
Open Scope list_scope.

(** ** Values *)

(** A field bound with [v-model] / [v-model.number] holds a JavaScript value:
    a number, or a string ([notes], [style], or an unparsable number input). *)
Inductive jsval : Type :=
| JNum (q : Q)
| JStr (s : string).

(** ** Data model *)

(** One entry of the [presets] prop: the keys read by [applyPreset]. *)
Module Preset.
Record t : Type := mk {
  preset : string;
  notes : jsval;
  thickness : jsval;
  width : jsval;
  height : jsval;
  kerf : jsval;
  boxC : jsval; boxL : jsval; boxI : jsval;
  tabC : jsval; tabL : jsval; tabI : jsval;
  slotC : jsval; slotL : jsval; slotI : jsval;
  style : jsval
}.
End Preset.

(** The object passed to [this.$emit("update", ...)] in [applyParams]. *)
Module Snapshot.
Record t : Type := mk {
  preset : string;
  notes : jsval;
  scale : jsval;
  thickness : jsval;
  width : jsval;
  height : jsval;
  kerf : jsval;
  boxC : jsval; boxL : jsval; boxI : jsval;
  tabC : jsval; tabL : jsval; tabI : jsval;
  slotC : jsval; slotL : jsval; slotI : jsval;
  style : jsval
}.
End Snapshot.

(** Events sent to the parent with [this.$emit]. *)
Inductive event : Type :=
| Update (s : Snapshot.t)   (* $emit("update", {...}) *)
| Download.                 (* $emit("download") *)

(** An [<option>] element of the preset [<select>] (ref [presets]). *)
Record dom_option : Type := mkOption {
  opt_value : string;
  opt_text : string;
  opt_disabled : bool
}.

(** Component state: the fields of [data()], the [presets] prop, the options
    of the [<select>] and the log of emitted events (oldest first). *)
Record state : Type := mkState {
  scale : jsval;
  preset : string;
  notes : jsval;
  thickness : jsval;
  width : jsval;
  height : jsval;
  kerf : jsval;
  boxC : jsval; boxL : jsval; boxI : jsval;
  tabC : jsval; tabL : jsval; tabI : jsval;
  slotC : jsval; slotL : jsval; slotI : jsval;
  style : jsval;
  presets : list Preset.t;
  options : list dom_option;
  emitted : list event
}.

(** [data()] with the [presets] prop [ps]; the options are the two of the
    template. *)
Definition data (ps : list Preset.t) : state :=
  {| scale := JNum 1; preset := "custom"; notes := JStr "No notes";
     thickness := JNum 3; width := JNum 450; height := JNum 300;
     kerf := JNum (5 # 100);
     boxC := JNum 0; boxL := JNum 0; boxI := JNum 0;
     tabC := JNum 0; tabL := JNum 0; tabI := JNum 0;
     slotC := JNum 0; slotL := JNum 0; slotI := JNum 0;
     style := JStr "stroke:#ff00ff;stroke-width:5px;";
     presets := ps;
     options := [mkOption "" "Please select one" true; mkOption "" "custom" false];
     emitted := [] |}.

(** ** Field setters *)

Definition set_preset (name : string) (s : state) : state :=
  {| scale := scale s; preset := name; notes := notes s;
     thickness := thickness s; width := width s; height := height s; kerf := kerf s;
     boxC := boxC s; boxL := boxL s; boxI := boxI s;
     tabC := tabC s; tabL := tabL s; tabI := tabI s;
     slotC := slotC s; slotL := slotL s; slotI := slotI s;
     style := style s; presets := presets s; options := options s;
     emitted := emitted s |}.

Definition set_presets (ps : list Preset.t) (s : state) : state :=
  {| scale := scale s; preset := preset s; notes := notes s;
     thickness := thickness s; width := width s; height := height s; kerf := kerf s;
     boxC := boxC s; boxL := boxL s; boxI := boxI s;
     tabC := tabC s; tabL := tabL s; tabI := tabI s;
     slotC := slotC s; slotL := slotL s; slotI := slotI s;
     style := style s; presets := ps; options := options s;
     emitted := emitted s |}.

Definition set_options (os : list dom_option) (s : state) : state :=
  {| scale := scale s; preset := preset s; notes := notes s;
     thickness := thickness s; width := width s; height := height s; kerf := kerf s;
     boxC := boxC s; boxL := boxL s; boxI := boxI s;
     tabC := tabC s; tabL := tabL s; tabI := tabI s;
     slotC := slotC s; slotL := slotL s; slotI := slotI s;
     style := style s; presets := presets s; options := os;
     emitted := emitted s |}.

(** [this.$emit(e)]: the event is appended to the log. *)
Definition emit (e : event) (s : state) : state :=
  {| scale := scale s; preset := preset s; notes := notes s;
     thickness := thickness s; width := width s; height := height s; kerf := kerf s;
     boxC := boxC s; boxL := boxL s; boxI := boxI s;
     tabC := tabC s; tabL := tabL s; tabI := tabI s;
     slotC := slotC s; slotL := slotL s; slotI := slotI s;
     style := style s; presets := presets s; options := options s;
     emitted := emitted s ++ [e] |}.

(** The inputs bound with [v-model] that have an [@change="applyParams"]. *)
Inductive field : Type :=
| FScale | FNotes | FThickness | FWidth | FHeight | FKerf
| FBoxC | FBoxL | FBoxI | FTabC | FTabL | FTabI | FSlotC | FSlotL | FSlotI
| FStyle.

Definition field_eqb (f g : field) : bool :=
  match f, g with
  | FScale, FScale | FNotes, FNotes | FThickness, FThickness
  | FWidth, FWidth | FHeight, FHeight | FKerf, FKerf
  | FBoxC, FBoxC | FBoxL, FBoxL | FBoxI, FBoxI
  | FTabC, FTabC | FTabL, FTabL | FTabI, FTabI
  | FSlotC, FSlotC | FSlotL, FSlotL | FSlotI, FSlotI
  | FStyle, FStyle => true
  | _, _ => false
  end.

(** The write done by [v-model] when the input of field [f] changes. *)
Definition set_field (f : field) (v : jsval) (s : state) : state :=
  let pick g old := if field_eqb f g then v else old in
  {| scale := pick FScale (scale s); preset := preset s;
     notes := pick FNotes (notes s);
     thickness := pick FThickness (thickness s);
     width := pick FWidth (width s); height := pick FHeight (height s);
     kerf := pick FKerf (kerf s);
     boxC := pick FBoxC (boxC s); boxL := pick FBoxL (boxL s);
     boxI := pick FBoxI (boxI s);
     tabC := pick FTabC (tabC s); tabL := pick FTabL (tabL s);
     tabI := pick FTabI (tabI s);
     slotC := pick FSlotC (slotC s); slotL := pick FSlotL (slotL s);
     slotI := pick FSlotI (slotI s);
     style := pick FStyle (style s);
     presets := presets s; options := options s; emitted := emitted s |}.

(** ** Methods *)

(** The object literal built by [applyParams]. *)
Definition snapshot (s : state) : Snapshot.t :=
  {| Snapshot.preset := preset s; Snapshot.notes := notes s;
     Snapshot.scale := scale s;
     Snapshot.thickness := thickness s; Snapshot.width := width s;
     Snapshot.height := height s; Snapshot.kerf := kerf s;
     Snapshot.boxC := boxC s; Snapshot.boxL := boxL s; Snapshot.boxI := boxI s;
     Snapshot.tabC := tabC s; Snapshot.tabL := tabL s; Snapshot.tabI := tabI s;
     Snapshot.slotC := slotC s; Snapshot.slotL := slotL s;
     Snapshot.slotI := slotI s;
     Snapshot.style := style s |}.

(** [applyParams]: emits [update] with the current values; the "change to
    custom" step is only a TODO comment in the source. *)
Definition applyParams (s : state) : state :=
  emit (Update (snapshot s)) s.

(** The fifteen assignments [this.notes = preset.notes; ...;
    this.style = preset.style] of [applyPreset]. *)
Definition copy_preset (p : Preset.t) (s : state) : state :=
  {| scale := scale s; preset := preset s; notes := Preset.notes p;
     thickness := Preset.thickness p; width := Preset.width p;
     height := Preset.height p; kerf := Preset.kerf p;
     boxC := Preset.boxC p; boxL := Preset.boxL p; boxI := Preset.boxI p;
     tabC := Preset.tabC p; tabL := Preset.tabL p; tabI := Preset.tabI p;
     slotC := Preset.slotC p; slotL := Preset.slotL p; slotI := Preset.slotI p;
     style := Preset.style p;
     presets := presets s; options := options s; emitted := emitted s |}.

(** The loop [for (let preset of this.presets)] of [applyPreset]: at the
    first entry with [preset.preset === this.preset] copy its fields, call
    [applyParams] and [break]; if no entry matches, nothing happens. *)
Fixpoint applyPreset_loop (ps : list Preset.t) (s : state) : state :=
  match ps with
  | [] => s
  | p :: ps' =>
      if String.eqb (Preset.preset p) (preset s)
      then applyParams (copy_preset p s)
      else applyPreset_loop ps' s
  end.

Definition applyPreset (s : state) : state :=
  applyPreset_loop (presets s) s.

(** The options written by [select.innerHTML = ...]. *)
Definition base_options : list dom_option :=
  [mkOption "" "Please select one" true; mkOption "custom" "custom" false].

(** The [<option>] appended for one catalog entry. *)
Definition preset_option (p : Preset.t) : dom_option :=
  mkOption (Preset.preset p) (Preset.preset p) false.

(** [updatePresetsOptions]. *)
Definition updatePresetsOptions (s : state) : state :=
  let s1 := set_options (base_options ++ map preset_option (presets s)) s in
  let s2 :=
    match presets s1 with
    | [] => s1
    | p0 :: _ => applyPreset (set_preset (Preset.preset p0) s1)
    end in
  applyParams s2.

(** ** Inbound operations *)

(** The parent replaces the [presets] prop; the watcher calls
    [updatePresetsOptions]. *)
Definition onCatalogReplaced (ps : list Preset.t) (s : state) : state :=
  updatePresetsOptions (set_presets ps s).

(** The user picks option [name] in the preset [<select>]: [v-model] writes
    [this.preset], then [@change="applyPreset"] runs. *)
Definition selectPreset (name : string) (s : state) : state :=
  applyPreset (set_preset name s).

(** The user changes input [f] to [v]: [v-model] writes the field, then
    [@change="applyParams"] runs. *)
Definition editField (f : field) (v : jsval) (s : state) : state :=
  applyParams (set_field f v s).

(** [downloadsvg]. *)
Definition downloadsvg (s : state) : state := emit Download s.

(** ** Derived notions used by the statements *)

(** The values of the options a user can pick (the disabled placeholder is
    not selectable). *)
Definition selectable (s : state) : list string :=
  map opt_value (filter (fun o => negb (opt_disabled o)) (options s)).

(** The preset-backed fields of [s] are those of [p]. *)
Definition fields_match (s : state) (p : Preset.t) : Prop :=
  notes s = Preset.notes p /\ thickness s = Preset.thickness p /\
  width s = Preset.width p /\ height s = Preset.height p /\
  kerf s = Preset.kerf p /\
  boxC s = Preset.boxC p /\ boxL s = Preset.boxL p /\ boxI s = Preset.boxI p /\
  tabC s = Preset.tabC p /\ tabL s = Preset.tabL p /\ tabI s = Preset.tabI p /\
  slotC s = Preset.slotC p /\ slotL s = Preset.slotL p /\
  slotI s = Preset.slotI p /\ style s = Preset.style p.

(** The preset-backed fields of [s] and [s'] agree. *)
Definition same_fields (s s' : state) : Prop :=
  notes s' = notes s /\ thickness s' = thickness s /\
  width s' = width s /\ height s' = height s /\ kerf s' = kerf s /\
  boxC s' = boxC s /\ boxL s' = boxL s /\ boxI s' = boxI s /\
  tabC s' = tabC s /\ tabL s' = tabL s /\ tabI s' = tabI s /\
  slotC s' = slotC s /\ slotL s' = slotL s /\ slotI s' = slotI s /\
  style s' = style s.

(** The value the preset [p] gives to field [f] ([scale] is not a preset
    field). *)
Definition preset_field (p : Preset.t) (f : field) : option jsval :=
  match f with
  | FScale => None
  | FNotes => Some (Preset.notes p) | FThickness => Some (Preset.thickness p)
  | FWidth => Some (Preset.width p) | FHeight => Some (Preset.height p)
  | FKerf => Some (Preset.kerf p)
  | FBoxC => Some (Preset.boxC p) | FBoxL => Some (Preset.boxL p)
  | FBoxI => Some (Preset.boxI p)
  | FTabC => Some (Preset.tabC p) | FTabL => Some (Preset.tabL p)
  | FTabI => Some (Preset.tabI p)
  | FSlotC => Some (Preset.slotC p) | FSlotL => Some (Preset.slotL p)
  | FSlotI => Some (Preset.slotI p)
  | FStyle => Some (Preset.style p)
  end.

(** ** Sample catalog (Scenario A of the specification) *)

Definition mk_preset (name : string) (t : Q) : Preset.t :=
  {| Preset.preset := name; Preset.notes := JStr "";
     Preset.thickness := JNum t; Preset.width := JNum 450;
     Preset.height := JNum 300; Preset.kerf := JNum (1 # 10);
     Preset.boxC := JNum 0; Preset.boxL := JNum 0; Preset.boxI := JNum 0;
     Preset.tabC := JNum 0; Preset.tabL := JNum 0; Preset.tabI := JNum 0;
     Preset.slotC := JNum 0; Preset.slotL := JNum 0; Preset.slotI := JNum 0;
     Preset.style := JStr "stroke:#ff00ff;stroke-width:5px;" |}.

Definition ply3mm : Preset.t := mk_preset "ply3mm" 3.

(** ** Component lifecycle and sequences of user actions *)

(** [mounted]: on the next tick, [updatePresetsOptions] runs on the fresh
    [data()] with the [presets] prop [ps]. *)
Definition mounted (ps : list Preset.t) : state :=
  updatePresetsOptions (data ps).

(** The stimuli the component reacts to. *)
Inductive op : Type :=
| OCatalog (c : list Preset.t)   (* new [presets] prop; the watcher fires *)
| OSelect (name : string)        (* a pick in the preset [<select>] *)
| OEdit (f : field) (v : jsval)  (* a change of one input *)
| ODownload.                     (* the "Export Cut Plan" button *)

Definition step (o : op) (s : state) : state :=
  match o with
  | OCatalog c => onCatalogReplaced c s
  | OSelect name => selectPreset name s
  | OEdit f v => editField f v s
  | ODownload => downloadsvg s
  end.

(** Each stimulus is handled to completion before the next one. *)
Fixpoint run (ops : list op) (s : state) : state :=
  match ops with
  | [] => s
  | o :: ops' => run ops' (step o s)
  end.

(** The state without its event log. *)
Definition forget (s : state) : state :=
  {| scale := scale s; preset := preset s; notes := notes s;
     thickness := thickness s; width := width s; height := height s; kerf := kerf s;
     boxC := boxC s; boxL := boxL s; boxI := boxI s;
     tabC := tabC s; tabL := tabL s; tabI := tabI s;
     slotC := slotC s; slotL := slotL s; slotI := slotI s;
     style := style s; presets := presets s; options := options s;
     emitted := [] |}.

(** The state [s] with the events [l] emitted before its own. *)
Definition append_log (l : list event) (s : state) : state :=
  {| scale := scale s; preset := preset s; notes := notes s;
     thickness := thickness s; width := width s; height := height s; kerf := kerf s;
     boxC := boxC s; boxL := boxL s; boxI := boxI s;
     tabC := tabC s; tabL := tabL s; tabI := tabI s;
     slotC := slotC s; slotL := slotL s; slotI := slotI s;
     style := style s; presets := presets s; options := options s;
     emitted := l ++ emitted s |}.

Definition is_download (e : event) : bool :=
  match e with Download => true | Update _ => false end.

Definition is_download_op (o : op) : bool :=
  match o with ODownload => true | _ => false end.

Definition is_catalog_op (o : op) : bool :=
  match o with OCatalog _ => true | _ => false end.

(** The entry the loop of [applyPreset] stops at, if any. *)
Fixpoint find_preset (ps : list Preset.t) (name : string) : option Preset.t :=
  match ps with
  | [] => None
  | p :: ps' => if String.eqb (Preset.preset p) name then Some p
                else find_preset ps' name
  end.

(** ** Lemmas about the methods *)

Lemma applyPreset_loop_notin ps s :
  ~ In (preset s) (map Preset.preset ps) -> applyPreset_loop ps s = s.
Proof.
  induction ps as [|p ps IH]; intro Hn; simpl in *; [reflexivity|].
  destruct (String.eqb_spec (Preset.preset p) (preset s)) as [E|E].
  - exfalso; apply Hn; left; exact E.
  - apply IH; intro H; apply Hn; right; exact H.
Qed.

Lemma applyPreset_loop_first pre p post s :
  ~ In (preset s) (map Preset.preset pre) ->
  Preset.preset p = preset s ->
  applyPreset_loop (pre ++ p :: post) s = applyParams (copy_preset p s).
Proof.
  induction pre as [|q pre IH]; intros Hn Hp; simpl in *.
  - rewrite Hp, String.eqb_refl; reflexivity.
  - destruct (String.eqb_spec (Preset.preset q) (preset s)) as [E|E].
    + exfalso; apply Hn; left; exact E.
    + apply IH; [intro H; apply Hn; right; exact H | exact Hp].
Qed.

(** With unique names, the matching entry is the one found. *)
Lemma applyPreset_loop_unique ps p s :
  NoDup (map Preset.preset ps) -> In p ps -> Preset.preset p = preset s ->
  applyPreset_loop ps s = applyParams (copy_preset p s).
Proof.
  intros Hnd Hin Hp.
  destruct (in_split p ps Hin) as (pre & post & ->).
  apply applyPreset_loop_first; [|exact Hp].
  rewrite map_app in Hnd; simpl in Hnd.
  rewrite <- Hp; intro Hpre.
  apply NoDup_remove_2 in Hnd; apply Hnd, in_or_app; left; exact Hpre.
Qed.

(** Some entry matches, or none does and the state is left alone. *)
Lemma applyPreset_loop_cases ps s :
  (exists p, In p ps /\ Preset.preset p = preset s /\
             applyPreset_loop ps s = applyParams (copy_preset p s)) \/
  (~ In (preset s) (map Preset.preset ps) /\ applyPreset_loop ps s = s).
Proof.
  induction ps as [|q ps IH]; simpl.
  - right; split; [intros []|reflexivity].
  - destruct (String.eqb_spec (Preset.preset q) (preset s)) as [E|E].
    + left; exists q; split; [left; reflexivity|split; [exact E|reflexivity]].
    + destruct IH as [(p & Hi & Hp & Hr)|(Hn & Hr)].
      * left; exists p; split; [right; exact Hi|split; assumption].
      * right; split; [|exact Hr].
        intros [H|H]; [exact (E H)|exact (Hn H)].
Qed.

Lemma applyPreset_loop_scale ps s : scale (applyPreset_loop ps s) = scale s.
Proof.
  destruct (applyPreset_loop_cases ps s) as [(p & _ & _ & ->)|(_ & ->)];
    reflexivity.
Qed.

Lemma applyPreset_loop_preset ps s : preset (applyPreset_loop ps s) = preset s.
Proof.
  destruct (applyPreset_loop_cases ps s) as [(p & _ & _ & ->)|(_ & ->)];
    reflexivity.
Qed.

Lemma applyPreset_loop_options ps s : options (applyPreset_loop ps s) = options s.
Proof.
  destruct (applyPreset_loop_cases ps s) as [(p & _ & _ & ->)|(_ & ->)];
    reflexivity.
Qed.

Lemma fields_match_copy p s : fields_match (applyParams (copy_preset p s)) p.
Proof. repeat split. Qed.

(** ** Claims *)

(** C1 (bound fidelity): in a catalog with unique names, for every preset [p]
    of it, [selectPreset p.preset] copies all fifteen preset fields of [p]
    into the state and leaves [preset] equal to [p]'s name. *)
Theorem selectPreset_bound_fidelity (s : state) (p : Preset.t)
  (Hnd : NoDup (map Preset.preset (presets s))) (Hin : In p (presets s)) :
  fields_match (selectPreset (Preset.preset p) s) p /\
  preset (selectPreset (Preset.preset p) s) = Preset.preset p.
Proof.
  unfold selectPreset, applyPreset.
  rewrite (applyPreset_loop_unique (presets (set_preset (Preset.preset p) s)) p
             (set_preset (Preset.preset p) s) Hnd Hin eq_refl).
  split; [apply fields_match_copy|reflexivity].
Qed.

Definition C1_state : state :=
  onCatalogReplaced [mk_preset "ply3mm" 3; mk_preset "ply6mm" 6] (data []).

Lemma selectPreset_bound_fidelity_witness :
  NoDup (map Preset.preset (presets C1_state)) /\
  In (mk_preset "ply6mm" 6) (presets C1_state) /\
  (fields_match (selectPreset "ply6mm" C1_state) (mk_preset "ply6mm" 6) /\
   preset (selectPreset "ply6mm" C1_state) = "ply6mm").
Proof.
  assert (Hnd : NoDup (map Preset.preset (presets C1_state))).
  { simpl. constructor; [simpl; intros [H|[]]; discriminate H|].
    constructor; [intros []|constructor]. }
  assert (Hin : In (mk_preset "ply6mm" 6) (presets C1_state)).
  { simpl; right; left; reflexivity. }
  split; [exact Hnd|split; [exact Hin|]].
  exact (selectPreset_bound_fidelity C1_state (mk_preset "ply6mm" 6) Hnd Hin).
Defined.

(** C2 (detachment on edit, code_bug): [applyParams] never changes
    [preset]; after loading Scenario A and editing [thickness] to 5, the
    state still names ["ply3mm"] although its thickness no longer equals
    that preset's. *)
Lemma editField_preset f v s : preset (editField f v s) = preset s.
Proof. reflexivity. Qed.

Definition scenarioA : state := onCatalogReplaced [ply3mm] (data []).

Definition scenarioB : state := editField FThickness (JNum 5) scenarioA.

Theorem editField_keeps_bound_name :
  preset scenarioA = "ply3mm" /\ fields_match scenarioA ply3mm /\
  preset_field ply3mm FThickness = Some (JNum 3) /\
  thickness scenarioB = JNum 5 /\
  preset scenarioB = "ply3mm".
Proof. repeat split. Qed.

(** Number of [update] events an operation appended. *)
Definition updates_added (before after : state) : nat :=
  length (emitted after) - length (emitted before).

(** C3 counterexample: not every operation emits exactly one snapshot.
    [selectPreset "custom"] with no catalog entry named ["custom"] emits none,
    and replacing the catalog by a non-empty one emits two. *)
Lemma snapshot_count_counterexample :
  ~ (forall (s : state),
       updates_added s (selectPreset "custom" s) = 1%nat /\
       updates_added s (onCatalogReplaced [ply3mm] s) = 1%nat).
Proof.
  intro H; destruct (H (data [])) as [H1 _]; discriminate H1.
Qed.

(** C3 (as amended): every emitted snapshot is the live state at emission
    time, with [preset] and [scale]; [editField] and [selectPreset] of a
    catalog name emit one snapshot, [selectPreset] of any other name (e.g.
    ["custom"] when no entry has that name) emits none, and catalog
    replacement emits one for an empty catalog, two for a non-empty one. *)
Theorem snapshot_emission :
  (forall f v s,
     emitted (editField f v s) = emitted s ++ [Update (snapshot (editField f v s))]) /\
  (forall n s, In n (map Preset.preset (presets s)) ->
     emitted (selectPreset n s) = emitted s ++ [Update (snapshot (selectPreset n s))]) /\
  (forall n s, ~ In n (map Preset.preset (presets s)) ->
     emitted (selectPreset n s) = emitted s) /\
  (forall s,
     emitted (onCatalogReplaced [] s) =
     emitted s ++ [Update (snapshot (onCatalogReplaced [] s))]) /\
  (forall p rest s,
     emitted (onCatalogReplaced (p :: rest) s) =
     emitted s ++ [Update (snapshot (onCatalogReplaced (p :: rest) s));
                   Update (snapshot (onCatalogReplaced (p :: rest) s))]) /\
  (forall s, Snapshot.preset (snapshot s) = preset s /\
             Snapshot.scale (snapshot s) = scale s /\
             Snapshot.notes (snapshot s) = notes s /\
             Snapshot.thickness (snapshot s) = thickness s /\
             Snapshot.width (snapshot s) = width s /\
             Snapshot.height (snapshot s) = height s /\
             Snapshot.kerf (snapshot s) = kerf s /\
             Snapshot.boxC (snapshot s) = boxC s /\
             Snapshot.boxL (snapshot s) = boxL s /\
             Snapshot.boxI (snapshot s) = boxI s /\
             Snapshot.tabC (snapshot s) = tabC s /\
             Snapshot.tabL (snapshot s) = tabL s /\
             Snapshot.tabI (snapshot s) = tabI s /\
             Snapshot.slotC (snapshot s) = slotC s /\
             Snapshot.slotL (snapshot s) = slotL s /\
             Snapshot.slotI (snapshot s) = slotI s /\
             Snapshot.style (snapshot s) = style s).
Proof.
  split; [reflexivity|].
  split.
  { intros n s Hin; unfold selectPreset, applyPreset.
    destruct (applyPreset_loop_cases (presets (set_preset n s)) (set_preset n s))
      as [(p & _ & _ & ->)|(Hn & _)]; [reflexivity|].
    exfalso; exact (Hn Hin). }
  split.
  { intros n s Hn; unfold selectPreset, applyPreset.
    rewrite applyPreset_loop_notin; [reflexivity|exact Hn]. }
  split; [reflexivity|].
  split.
  { intros p rest s; unfold onCatalogReplaced, updatePresetsOptions.
    cbn -[String.eqb]; rewrite String.eqb_refl; cbn.
    rewrite <- app_assoc; reflexivity. }
  intro s; repeat split.
Qed.

(** C4 (default selection on load): replacing the catalog by [p1 :: rest]
    leaves every preset field equal to [p1]'s and [preset] equal to
    [p1]'s name. *)
Theorem onCatalogReplaced_selects_first (p1 : Preset.t) (rest : list Preset.t)
  (s : state) :
  fields_match (onCatalogReplaced (p1 :: rest) s) p1 /\
  preset (onCatalogReplaced (p1 :: rest) s) = Preset.preset p1.
Proof.
  unfold onCatalogReplaced, updatePresetsOptions.
  cbn -[String.eqb]; rewrite String.eqb_refl.
  split; [repeat split|reflexivity].
Qed.

(** C5 counterexample: with a catalog entry named ["custom"],
    [selectPreset "custom"] copies that entry's fields. *)
Lemma selectPreset_custom_counterexample :
  ~ (forall s : state,
       preset (selectPreset "custom" s) = "custom" /\
       same_fields s (selectPreset "custom" s)).
Proof.
  intro H; destruct (H (data [mk_preset "custom" 7])) as [_ (_ & Ht & _)].
  discriminate Ht.
Qed.

(** C5 (as amended): [selectPreset "custom"] always sets [preset] to
    ["custom"] and keeps [scale].  When no catalog entry is named ["custom"]
    every other field is unchanged; when the catalog has entries named
    ["custom"], the fields of the first of them are copied, as for any other
    preset name. *)
Theorem selectPreset_custom_frame (s : state) :
  (~ In "custom" (map Preset.preset (presets s)) ->
   preset (selectPreset "custom" s) = "custom" /\
   same_fields s (selectPreset "custom" s) /\
   scale (selectPreset "custom" s) = scale s) /\
  (forall pre p post,
   presets s = pre ++ p :: post ->
   ~ In "custom" (map Preset.preset pre) ->
   Preset.preset p = "custom" ->
   preset (selectPreset "custom" s) = "custom" /\
   fields_match (selectPreset "custom" s) p /\
   scale (selectPreset "custom" s) = scale s).
Proof.
  split.
  - intro Hc; unfold selectPreset, applyPreset.
    rewrite applyPreset_loop_notin by exact Hc.
    split; [reflexivity|split; [repeat split|reflexivity]].
  - intros pre p post Hcat Hpre Hp; unfold selectPreset, applyPreset.
    cbn [presets set_preset]; rewrite Hcat.
    rewrite applyPreset_loop_first by (cbn; first [exact Hpre|exact Hp]).
    split; [reflexivity|split; [apply fields_match_copy|reflexivity]].
Qed.

(** A loaded catalog whose second entry is named ["custom"]. *)
Definition custom_entry_state : state :=
  onCatalogReplaced [ply3mm; mk_preset "custom" 7] (data []).

Lemma selectPreset_custom_frame_witness :
  (~ In "custom" (map Preset.preset (presets scenarioA)) /\
   (preset (selectPreset "custom" scenarioA) = "custom" /\
    same_fields scenarioA (selectPreset "custom" scenarioA) /\
    scale (selectPreset "custom" scenarioA) = scale scenarioA)) /\
  (presets custom_entry_state = [ply3mm] ++ mk_preset "custom" 7 :: [] /\
   ~ In "custom" (map Preset.preset [ply3mm]) /\
   (preset (selectPreset "custom" custom_entry_state) = "custom" /\
    fields_match (selectPreset "custom" custom_entry_state) (mk_preset "custom" 7) /\
    scale (selectPreset "custom" custom_entry_state) = scale custom_entry_state)).
Proof.
  assert (Hc : ~ In "custom" (map Preset.preset (presets scenarioA))).
  { vm_compute; intros [H|[]]; discriminate H. }
  assert (Hcat : presets custom_entry_state = [ply3mm] ++ mk_preset "custom" 7 :: [])
    by (vm_compute; reflexivity).
  assert (Hpre : ~ In "custom" (map Preset.preset [ply3mm])).
  { vm_compute; intros [H|[]]; discriminate H. }
  assert (Hp : Preset.preset (mk_preset "custom" 7) = "custom") by reflexivity.
  split.
  - split; [exact Hc|exact (proj1 (selectPreset_custom_frame scenarioA) Hc)].
  - split; [exact Hcat|split; [exact Hpre|]].
    exact (proj2 (selectPreset_custom_frame custom_entry_state)
             [ply3mm] (mk_preset "custom" 7) [] Hcat Hpre Hp).
Defined.

(** C6 (unknown name): for a name that is not the name of any catalog entry
    (["custom"] included when no entry carries it), [selectPreset] copies
    nothing: every preset field and [scale] are unchanged and no event is
    emitted; only [preset] takes the name. *)
Theorem selectPreset_unknown_noop (name : string) (s : state)
  (Hn : ~ In name (map Preset.preset (presets s))) :
  same_fields s (selectPreset name s) /\
  scale (selectPreset name s) = scale s /\
  emitted (selectPreset name s) = emitted s.
Proof.
  unfold selectPreset, applyPreset.
  rewrite applyPreset_loop_notin by exact Hn.
  split; [repeat split|split; reflexivity].
Qed.

Lemma selectPreset_unknown_noop_witness :
  ~ In "nonexistent" (map Preset.preset (presets scenarioA)) /\
  (same_fields scenarioA (selectPreset "nonexistent" scenarioA) /\
   scale (selectPreset "nonexistent" scenarioA) = scale scenarioA /\
   emitted (selectPreset "nonexistent" scenarioA) = emitted scenarioA).
Proof.
  assert (Hn : ~ In "nonexistent" (map Preset.preset (presets scenarioA))).
  { simpl; intros [H|[]]; discriminate H. }
  split; [exact Hn|exact (selectPreset_unknown_noop "nonexistent" scenarioA Hn)].
Defined.

(** C7 (empty catalog): replacing the catalog by [[]] leaves every preset
    field, [scale] and [preset] unchanged. *)
Theorem onCatalogReplaced_empty_frame (s : state) :
  same_fields s (onCatalogReplaced [] s) /\
  scale (onCatalogReplaced [] s) = scale s /\
  preset (onCatalogReplaced [] s) = preset s.
Proof. split; [repeat split|split; reflexivity]. Qed.

(** C8 (scale is independent of presets): [selectPreset] of any name and
    [onCatalogReplaced] of any catalog keep [scale]; [editField f v] sets it
    to [v] exactly when [f] is the scale input. *)
Theorem scale_untouched_by_presets :
  (forall name s, scale (selectPreset name s) = scale s) /\
  (forall c s, scale (onCatalogReplaced c s) = scale s) /\
  (forall f v s,
     scale (editField f v s) = if field_eqb f FScale then v else scale s).
Proof.
  split; [|split].
  - intros name s; unfold selectPreset, applyPreset.
    rewrite applyPreset_loop_scale; reflexivity.
  - intros c s; unfold onCatalogReplaced, updatePresetsOptions.
    destruct c as [|p rest]; [reflexivity|].
    cbn -[applyPreset_loop]; unfold applyPreset.
    rewrite applyPreset_loop_scale; reflexivity.
  - intros f v s; destruct f; reflexivity.
Qed.

(** C9 (selectable list): after catalog replacement the options a user can
    pick are ["custom"] followed by the names of the catalog in order, and
    a second replacement by a catalog with the same names yields the same
    options. *)
Theorem onCatalogReplaced_options (c c' : list Preset.t) (s : state)
  (Hsame : map Preset.preset c' = map Preset.preset c) :
  selectable (onCatalogReplaced c s) = "custom" :: map Preset.preset c /\
  options (onCatalogReplaced c' (onCatalogReplaced c s)) =
  options (onCatalogReplaced c s).
Proof.
  assert (Hopt : forall d t,
            options (onCatalogReplaced d t) =
            base_options ++ map preset_option d).
  { intros d t; unfold onCatalogReplaced, updatePresetsOptions.
    destruct d as [|p rest]; [reflexivity|].
    cbn -[applyPreset_loop]; unfold applyPreset.
    rewrite applyPreset_loop_options; reflexivity. }
  split.
  - unfold selectable; rewrite Hopt; cbn.
    f_equal; clear Hsame; induction c as [|p c IH]; [reflexivity|cbn; f_equal; exact IH].
  - rewrite !Hopt; f_equal.
    assert (Hpo : forall d, map preset_option d =
                            map (fun n => mkOption n n false) (map Preset.preset d)).
    { intro d; rewrite map_map; reflexivity. }
    rewrite !Hpo, Hsame; reflexivity.
Qed.

Lemma onCatalogReplaced_options_witness :
  map Preset.preset [mk_preset "ply3mm" 4] = map Preset.preset [ply3mm] /\
  (selectable (onCatalogReplaced [ply3mm] (data [])) = ["custom"; "ply3mm"] /\
   options (onCatalogReplaced [mk_preset "ply3mm" 4]
              (onCatalogReplaced [ply3mm] (data []))) =
   options (onCatalogReplaced [ply3mm] (data []))).
Proof.
  split; [reflexivity|].
  exact (onCatalogReplaced_options [ply3mm] [mk_preset "ply3mm" 4] (data [])
           eq_refl).
Defined.

(** C10 (duplicate names): when several catalog entries share a name,
    [selectPreset] of that name copies the first of them. *)
Theorem selectPreset_first_match (pre post : list Preset.t) (p : Preset.t)
  (s : state)
  (Hcat : presets s = pre ++ p :: post)
  (Hfirst : ~ In (Preset.preset p) (map Preset.preset pre)) :
  fields_match (selectPreset (Preset.preset p) s) p /\
  preset (selectPreset (Preset.preset p) s) = Preset.preset p.
Proof.
  unfold selectPreset, applyPreset; cbn [presets set_preset]; rewrite Hcat.
  rewrite applyPreset_loop_first by (cbn; first [exact Hfirst|reflexivity]).
  split; [apply fields_match_copy|reflexivity].
Qed.

Definition dup_state : state :=
  set_presets [mk_preset "ply" 3; mk_preset "ply" 6] (data []).

Lemma selectPreset_first_match_witness :
  presets dup_state = [] ++ mk_preset "ply" 3 :: [mk_preset "ply" 6] /\
  ~ In "ply" (map Preset.preset []) /\
  (fields_match (selectPreset "ply" dup_state) (mk_preset "ply" 3) /\
   preset (selectPreset "ply" dup_state) = "ply") /\
  thickness (selectPreset "ply" dup_state) = JNum 3.
Proof.
  split; [reflexivity|split; [intros []|split; [|reflexivity]]].
  exact (selectPreset_first_match [] [mk_preset "ply" 6] (mk_preset "ply" 3)
           dup_state eq_refl (fun H => H)).
Defined.

(** ** Further properties of the component *)

(** The methods never read the event log: running them after earlier events
    only puts those events in front. *)
Lemma append_log_split s : s = append_log (emitted s) (forget s).
Proof.
  unfold append_log, forget; cbn [emitted]; rewrite app_nil_r.
  destruct s; reflexivity.
Qed.

Lemma applyParams_log l s :
  applyParams (append_log l s) = append_log l (applyParams s).
Proof.
  unfold applyParams, emit, append_log; cbn [emitted].
  rewrite app_assoc; reflexivity.
Qed.

Lemma applyPreset_loop_log ps l s :
  applyPreset_loop ps (append_log l s) = append_log l (applyPreset_loop ps s).
Proof.
  induction ps as [|p ps IH]; cbn -[applyParams]; [reflexivity|].
  destruct (String.eqb (Preset.preset p) (preset s)); [|exact IH].
  rewrite <- applyParams_log; reflexivity.
Qed.

Lemma updatePresetsOptions_log l s :
  updatePresetsOptions (append_log l s) = append_log l (updatePresetsOptions s).
Proof.
  unfold updatePresetsOptions; cbn [presets set_options append_log].
  destruct (presets s) as [|p rest].
  - rewrite <- applyParams_log; reflexivity.
  - unfold applyPreset; cbn [presets set_preset set_options].
    rewrite <- applyParams_log, <- applyPreset_loop_log; reflexivity.
Qed.

Lemma step_log o l s : step o (append_log l s) = append_log l (step o s).
Proof.
  destruct o as [c|name|f v|]; cbn [step].
  - unfold onCatalogReplaced; rewrite <- updatePresetsOptions_log; reflexivity.
  - unfold selectPreset, applyPreset; cbn [presets set_preset].
    rewrite <- applyPreset_loop_log; reflexivity.
  - unfold editField; rewrite <- applyParams_log; reflexivity.
  - unfold downloadsvg, emit, append_log; cbn [emitted].
    rewrite app_assoc; reflexivity.
Qed.

Lemma append_log_app l l' s :
  append_log l (append_log l' s) = append_log (l ++ l') s.
Proof. unfold append_log; cbn [emitted]; rewrite app_assoc; reflexivity. Qed.

Lemma forget_append_log l s : forget (append_log l s) = forget s.
Proof. reflexivity. Qed.

Lemma run_log ops l s : run ops (append_log l s) = append_log l (run ops s).
Proof.
  revert s; induction ops as [|o ops IH]; intro s; cbn; [reflexivity|].
  rewrite step_log; apply IH.
Qed.

Lemma run_app ops1 ops2 s : run (ops1 ++ ops2) s = run ops2 (run ops1 s).
Proof. revert s; induction ops1 as [|o ops1 IH]; intro s; cbn; auto. Qed.

(** Every event a non-download stimulus emits is an [update]. *)
Lemma applyPreset_emits_updates t :
  exists l, emitted (applyPreset t) = emitted t ++ l /\
            Forall (fun e => is_download e = false) l.
Proof.
  unfold applyPreset.
  destruct (applyPreset_loop_cases (presets t) t) as [(p & _ & _ & ->)|(_ & ->)].
  - exists [Update (snapshot (copy_preset p t))]; split; [reflexivity|].
    repeat constructor.
  - exists []; split; [symmetry; apply app_nil_r|constructor].
Qed.

Lemma updatePresetsOptions_emits_updates t :
  exists l, emitted (updatePresetsOptions t) = emitted t ++ l /\
            Forall (fun e => is_download e = false) l.
Proof.
  unfold updatePresetsOptions; cbv zeta.
  change (presets (set_options ?o t)) with (presets t).
  destruct (presets t) as [|p rest].
  - eexists; split; [reflexivity|repeat constructor].
  - match goal with |- context [applyPreset ?u] =>
      destruct (applyPreset_emits_updates u) as (l & Hl & Hf) end.
    eexists; split.
    + unfold applyParams at 1, emit at 1; cbn [emitted]; rewrite Hl.
      cbn [set_preset set_options emitted].
      rewrite <- app_assoc; reflexivity.
    + apply Forall_app; split; [exact Hf|repeat constructor].
Qed.

Lemma step_emits_updates o s :
  is_download_op o = false ->
  exists l, emitted (step o s) = emitted s ++ l /\
            Forall (fun e => is_download e = false) l.
Proof.
  intro Hd; destruct o as [c|name|f v|]; cbn [step]; [| | |discriminate Hd].
  - unfold onCatalogReplaced; apply (updatePresetsOptions_emits_updates (set_presets c s)).
  - unfold selectPreset; apply (applyPreset_emits_updates (set_preset name s)).
  - eexists; split; [reflexivity|repeat constructor].
Qed.

Lemma applyPreset_loop_find ps t :
  applyPreset_loop ps t =
  match find_preset ps (preset t) with
  | Some p => applyParams (copy_preset p t)
  | None => t
  end.
Proof.
  induction ps as [|p ps IH]; cbn -[applyParams]; [reflexivity|].
  destruct (String.eqb (Preset.preset p) (preset t)); [reflexivity|exact IH].
Qed.

Lemma find_preset_in ps name :
  In name (map Preset.preset ps) -> exists p, find_preset ps name = Some p.
Proof.
  induction ps as [|q ps IH]; cbn; [intros []|intros H].
  destruct (String.eqb_spec (Preset.preset q) name) as [E|E]; [eexists; reflexivity|].
  destruct H as [H|H]; [contradiction|exact (IH H)].
Qed.

Lemma selectPreset_find name s :
  selectPreset name s =
  match find_preset (presets s) name with
  | Some p => applyParams (copy_preset p (set_preset name s))
  | None => set_preset name s
  end.
Proof. unfold selectPreset, applyPreset; apply applyPreset_loop_find. Qed.

Lemma onCatalogReplaced_cons p rest s :
  onCatalogReplaced (p :: rest) s =
  applyParams (applyParams (copy_preset p (set_preset (Preset.preset p)
    (set_options (base_options ++ map preset_option (p :: rest))
       (set_presets (p :: rest) s))))).
Proof.
  unfold onCatalogReplaced, updatePresetsOptions, applyPreset.
  cbv zeta; cbn [presets set_options set_presets set_preset applyPreset_loop].
  rewrite String.eqb_refl; reflexivity.
Qed.

Lemma downloadsvg_split t :
  downloadsvg t = append_log (emitted t ++ [Download]) (forget t).
Proof.
  unfold downloadsvg, emit, append_log, forget; cbn [emitted].
  rewrite app_nil_r; reflexivity.
Qed.

Lemma filter_no_download l :
  Forall (fun e => is_download e = false) l -> filter is_download l = [].
Proof.
  induction 1 as [|e l He _ IH]; cbn; [reflexivity|rewrite He; exact IH].
Qed.

Lemma step_keeps_catalog o s :
  is_catalog_op o = false ->
  presets (step o s) = presets s /\ options (step o s) = options s.
Proof.
  intro Hc; destruct o as [c|name|f v|]; [discriminate Hc| | |split; reflexivity].
  - cbn [step]; rewrite selectPreset_find.
    destruct (find_preset (presets s) name); split; reflexivity.
  - split; reflexivity.
Qed.

Lemma forget_applyParams t : forget (applyParams t) = forget t.
Proof. reflexivity. Qed.

(** X1: pressing "Export Cut Plan" is invisible to the rest of the
    component: removing a [downloadsvg] from any sequence of stimuli changes
    nothing but the event log. *)
Theorem downloadsvg_state_neutral ops1 ops2 s :
  forget (run (ops1 ++ ODownload :: ops2) s) = forget (run (ops1 ++ ops2) s).
Proof.
  rewrite !run_app; cbn [run step].
  rewrite downloadsvg_split, run_log, forget_append_log.
  rewrite (append_log_split (run ops1 s)) at 2.
  rewrite run_log, forget_append_log; reflexivity.
Qed.

(** X2: the event log only grows, and the number of [download] events in it
    grows by exactly the number of [downloadsvg] calls. *)
Theorem download_events_count ops s :
  (exists l, emitted (run ops s) = emitted s ++ l) /\
  length (filter is_download (emitted (run ops s))) =
  (length (filter is_download (emitted s)) + length (filter is_download_op ops))%nat.
Proof.
  revert s; induction ops as [|o ops IH]; intro s; cbn [run].
  - split; [exists []; symmetry; apply app_nil_r|cbn; auto].
  - destruct (IH (step o s)) as [(l & Hl) Hn]; split.
    + destruct (is_download_op o) eqn:Hd.
      * destruct o; try discriminate Hd.
        exists (Download :: l); rewrite Hl; cbn; rewrite <- app_assoc; reflexivity.
      * destruct (step_emits_updates o s Hd) as (l' & Hl' & _).
        exists (l' ++ l); rewrite Hl, Hl', app_assoc; reflexivity.
    + rewrite Hn; destruct (is_download_op o) eqn:Hd.
      * destruct o; try discriminate Hd; cbn.
        rewrite filter_app; cbn; rewrite length_app; cbn.
        rewrite <- !plus_n_Sm, PeanoNat.Nat.add_0_r; reflexivity.
      * destruct (step_emits_updates o s Hd) as (l' & Hl' & Hf).
        rewrite Hl', filter_app, (filter_no_download l' Hf).
        cbn; rewrite Hd, app_nil_r; reflexivity.
Qed.

(** X3: selecting the same option twice in a row leaves the component as
    selecting it once (apart from the event log). *)
Theorem selectPreset_idempotent name s :
  forget (selectPreset name (selectPreset name s)) = forget (selectPreset name s).
Proof.
  rewrite (selectPreset_find name s).
  destruct (find_preset (presets s) name) as [p|] eqn:E;
    rewrite selectPreset_find; cbn [presets applyParams emit copy_preset set_preset];
    rewrite E; reflexivity.
Qed.

(** X4: selecting a catalog name forgets every earlier edit of a preset
    field: the result depends on the prior state only through the catalog,
    the options and [scale]. *)
Theorem selectPreset_discards_edits name s1 s2
  (Hin : In name (map Preset.preset (presets s1)))
  (Hp : presets s1 = presets s2) (Ho : options s1 = options s2)
  (Hs : scale s1 = scale s2) :
  forget (selectPreset name s1) = forget (selectPreset name s2).
Proof.
  destruct (find_preset_in _ _ Hin) as (p & E).
  rewrite !selectPreset_find, <- Hp, E.
  unfold forget, applyParams, emit, copy_preset, set_preset; cbn.
  rewrite Hp, Ho, Hs; reflexivity.
Qed.

Lemma selectPreset_discards_edits_witness :
  In "ply3mm" (map Preset.preset (presets scenarioA)) /\
  presets scenarioA = presets scenarioB /\
  options scenarioA = options scenarioB /\
  scale scenarioA = scale scenarioB /\
  forget (selectPreset "ply3mm" scenarioA) = forget (selectPreset "ply3mm" scenarioB).
Proof.
  assert (Hin : In "ply3mm" (map Preset.preset (presets scenarioA))).
  { vm_compute; left; reflexivity. }
  assert (Hp : presets scenarioA = presets scenarioB) by (vm_compute; reflexivity).
  assert (Ho : options scenarioA = options scenarioB) by (vm_compute; reflexivity).
  assert (Hs : scale scenarioA = scale scenarioB) by (vm_compute; reflexivity).
  split; [exact Hin|split; [exact Hp|split; [exact Ho|split; [exact Hs|]]]].
  exact (selectPreset_discards_edits "ply3mm" scenarioA scenarioB Hin Hp Ho Hs).
Defined.

(** X5: replacing the catalog by a non-empty one forgets every earlier edit
    and selection: the result depends on the prior state only through
    [scale]. *)
Theorem onCatalogReplaced_discards_edits p rest s1 s2
  (Hs : scale s1 = scale s2) :
  forget (onCatalogReplaced (p :: rest) s1) = forget (onCatalogReplaced (p :: rest) s2).
Proof.
  rewrite !onCatalogReplaced_cons, !forget_applyParams.
  unfold forget, copy_preset.
  cbn [scale preset presets options set_preset set_options set_presets].
  rewrite Hs; reflexivity.
Qed.

Lemma onCatalogReplaced_discards_edits_witness :
  scale (data []) = scale scenarioB /\
  forget (onCatalogReplaced [mk_preset "ply6mm" 6] (data [])) =
  forget (onCatalogReplaced [mk_preset "ply6mm" 6] scenarioB).
Proof.
  assert (Hs : scale (data []) = scale scenarioB) by (vm_compute; reflexivity).
  split; [exact Hs|].
  exact (onCatalogReplaced_discards_edits (mk_preset "ply6mm" 6) [] (data [])
           scenarioB Hs).
Defined.

(** Of two changes of the same input, the last one wins. *)
Theorem editField_last_wins f v1 v2 s :
  forget (editField f v2 (editField f v1 s)) = forget (editField f v2 s).
Proof. destruct f; reflexivity. Qed.

(** X6: changes of two different inputs commute. *)
Theorem editField_commute f g v w s
  (Hfg : field_eqb f g = false) :
  forget (editField f v (editField g w s)) = forget (editField g w (editField f v s)).
Proof. destruct f, g; try discriminate Hfg; reflexivity. Qed.

Lemma editField_commute_witness :
  field_eqb FScale FKerf = false /\
  forget (editField FScale (JNum 2) (editField FKerf (JNum (1 # 5)) scenarioA)) =
  forget (editField FKerf (JNum (1 # 5)) (editField FScale (JNum 2) scenarioA)).
Proof.
  assert (Hfg : field_eqb FScale FKerf = false) by reflexivity.
  split; [exact Hfg|].
  exact (editField_commute FScale FKerf (JNum 2) (JNum (1 # 5)) scenarioA Hfg).
Defined.

Lemma mounted_cons p rest :
  mounted (p :: rest) =
  applyParams (applyParams (copy_preset p (set_preset (Preset.preset p)
    (set_options (base_options ++ map preset_option (p :: rest))
       (data (p :: rest)))))).
Proof.
  unfold mounted, updatePresetsOptions, applyPreset.
  cbv zeta; cbn [presets set_options set_preset data applyPreset_loop].
  rewrite String.eqb_refl; reflexivity.
Qed.

(** X7: mounting the component with a non-empty [presets] prop applies the
    first entry (scale stays at its default 1) and emits two identical
    [update] events; with an empty prop the defaults of [data()] stay, with
    the selection on ["custom"], and one [update] carrying them is emitted. *)
Theorem mounted_behaviour p rest :
  (fields_match (mounted (p :: rest)) p /\
   preset (mounted (p :: rest)) = Preset.preset p /\
   scale (mounted (p :: rest)) = JNum 1 /\
   emitted (mounted (p :: rest)) =
   [Update (snapshot (mounted (p :: rest))); Update (snapshot (mounted (p :: rest)))]) /\
  (forget (mounted []) = set_options base_options (data []) /\
   preset (mounted []) = "custom" /\
   emitted (mounted []) = [Update (snapshot (data []))]).
Proof.
  split.
  - rewrite mounted_cons; split; [repeat split|split; [reflexivity|split; reflexivity]].
  - split; [reflexivity|split; reflexivity].
Qed.

(** X8: replacing the catalog by an empty one keeps a selection that is no
    longer offered: unless it was ["custom"], the selected name is not among
    the options a user can pick, which are just ["custom"]. *)
Theorem onCatalogReplaced_empty_stale s (Hc : preset s <> "custom") :
  preset (onCatalogReplaced [] s) = preset s /\
  selectable (onCatalogReplaced [] s) = ["custom"] /\
  ~ In (preset (onCatalogReplaced [] s)) (selectable (onCatalogReplaced [] s)).
Proof.
  assert (Hsel : selectable (onCatalogReplaced [] s) = ["custom"]) by reflexivity.
  split; [reflexivity|split; [exact Hsel|]].
  rewrite Hsel; intros [H|[]]; exact (Hc (eq_sym H)).
Qed.

Lemma onCatalogReplaced_empty_stale_witness :
  preset scenarioA <> "custom" /\
  (preset (onCatalogReplaced [] scenarioA) = preset scenarioA /\
   selectable (onCatalogReplaced [] scenarioA) = ["custom"] /\
   ~ In (preset (onCatalogReplaced [] scenarioA))
        (selectable (onCatalogReplaced [] scenarioA))).
Proof.
  assert (Hc : preset scenarioA <> "custom") by (vm_compute; discriminate).
  split; [exact Hc|exact (onCatalogReplaced_empty_stale scenarioA Hc)].
Defined.

(** X9: only a catalog replacement changes the catalog and the options of
    the preset [<select>]; any sequence of selections, edits and exports
    leaves both as they were. *)
Theorem no_catalog_op_keeps_options ops s
  (Hops : forallb (fun o => negb (is_catalog_op o)) ops = true) :
  presets (run ops s) = presets s /\ options (run ops s) = options s.
Proof.
  revert s; induction ops as [|o ops IH]; intro s; cbn [run]; [split; reflexivity|].
  cbn [forallb] in Hops; apply andb_prop in Hops as [Ho Hops].
  destruct (IH Hops (step o s)) as [Hp Hq].
  destruct (step_keeps_catalog o s (proj1 (negb_true_iff _) Ho)) as [Hp' Hq'].
  rewrite Hp, Hq, Hp', Hq'; split; reflexivity.
Qed.

Definition sample_ops : list op :=
  [OEdit FThickness (JNum 5); OSelect "custom"; ODownload; OSelect "ply3mm"].

Lemma no_catalog_op_keeps_options_witness :
  forallb (fun o => negb (is_catalog_op o)) sample_ops = true /\
  (presets (run sample_ops scenarioA) = presets scenarioA /\
   options (run sample_ops scenarioA) = options scenarioA).
Proof.
  assert (Hops : forallb (fun o => negb (is_catalog_op o)) sample_ops = true)
    by reflexivity.
  split; [exact Hops|exact (no_catalog_op_keeps_options sample_ops scenarioA Hops)].
Defined.
